(** * Spoticord: session, session manager, audio relay and process bootstrap

    The bootstrap ([main] in [src/main.rs]) is embedded from its source.
    The [session] module (session state machine, session manager, audio
    relay) is part of this repository but its source is not available here;
    it is modelled from the specification, and every such definition says so
    in its doc comment. *)

From Stdlib Require Import Sorted.
From stdpp Require Import base list gmap strings.

(* ------------------------------------------------------------------ *)
(** ** The Session state machine *)

Module Session.

Inductive State :=
  | Connecting
  | Playing
  | Paused
  | Reconnecting
  | Terminating
  | Terminated.

#[global] Instance State_eq_dec : EqDecision State.
Proof. solve_decision. Defined.

Inductive EndReason :=
  | ReasonLeave
  | ReasonJoinFailed
  | ReasonConnectionLost
  | ReasonFatal.

#[global] Instance EndReason_eq_dec : EqDecision EndReason.
Proof. solve_decision. Defined.

(** Control calls issued by the command layer. *)
Inductive Command :=
  | Play
  | Pause
  | Resume
  | Skip
  | SetVolume (v : nat)
  | Disconnect.

(** Events reported by the backend client and the voice transport. *)
Inductive Event :=
  | JoinSucceeded
  | JoinFailed
  | BackendPaused
  | BackendResumed
  | ConnectionLost
  | TransportDisconnected
  | RejoinSucceeded
  | FatalError.

Inductive Input :=
  | Control (c : Command)
  | Notify (e : Event)
  | TerminateCall.

Inductive Outcome :=
  | Accepted
  | CommandRejected.

#[global] Instance Outcome_eq_dec : EqDecision Outcome.
Proof. solve_decision. Defined.

(** Modelled from the spec: the Session record (section 3, "Session"):
    its state, the retry-budget counter of the design notes, the three
    exclusively owned handles (open or not) and the reported end reason;
    [forwarded] lists the playback commands handed to the backend. *)
Record Session := mkSession {
  guild_id : nat;
  state : State;
  retries_left : nat;
  volume : nat;
  backend_open : bool;
  transport_joined : bool;
  relay_running : bool;
  end_reason : option EndReason;
  forwarded : list Command;
}.

Definition with_state (st : State) (s : Session) : Session :=
  mkSession (guild_id s) st (retries_left s) (volume s) (backend_open s)
    (transport_joined s) (relay_running s) (end_reason s) (forwarded s).

Definition with_retries (n : nat) (s : Session) : Session :=
  mkSession (guild_id s) (state s) n (volume s) (backend_open s)
    (transport_joined s) (relay_running s) (end_reason s) (forwarded s).

Definition forward (c : Command) (s : Session) : Session :=
  mkSession (guild_id s) (state s) (retries_left s) (volume s) (backend_open s)
    (transport_joined s) (relay_running s) (end_reason s) (forwarded s ++ [c]).

Definition set_volume (v : nat) (s : Session) : Session :=
  mkSession (guild_id s) (state s) (retries_left s) v (backend_open s)
    (transport_joined s) (relay_running s) (end_reason s)
    (forwarded s ++ [SetVolume v]).

(** The first reason recorded is the one reported. *)
Definition with_reason (r : EndReason) (s : Session) : Session :=
  mkSession (guild_id s) (state s) (retries_left s) (volume s) (backend_open s)
    (transport_joined s) (relay_running s)
    (match end_reason s with Some r0 => Some r0 | None => Some r end)
    (forwarded s).

(** Modelled from the spec: teardown of a terminating Session (section
    4.4, [terminate()]): the relay task is cancelled, the transport leaves
    the channel and the backend connection is closed. *)
Definition teardown (s : Session) : Session :=
  mkSession (guild_id s) Terminated (retries_left s) (volume s) false false
    false (end_reason s) (forwarded s).

Record StepResult := mkStep {
  outcome : Outcome;
  trace : list State;
  next : Session;
}.

Definition accept (tr : list State) (s : Session) : StepResult :=
  mkStep Accepted tr s.

Definition reject (s : Session) : StepResult :=
  mkStep CommandRejected [] s.

Section WithBudget.

(** The retry budget is a policy constant (section 9): a parameter. *)
Variable retry_budget : nat.

(** Modelled from the spec: a new Session for a guild (section 4.4,
    [create]): it starts in [Connecting] with a full retry budget. *)
Definition new_session (g : nat) : Session :=
  mkSession g Connecting retry_budget 100 false false false None [].

(** any state -> Terminating -> Terminated *)
Definition shut_down (r : EndReason) (s : Session) : StepResult :=
  accept [Terminating; Terminated]
    (teardown (with_state Terminating (with_reason r s))).

Definition join_ok (s : Session) : Session :=
  mkSession (guild_id s) Playing retry_budget (volume s) true true true
    (end_reason s) (forwarded s).

(** Modelled from the spec: a transport disconnect or a backend
    [ConnectionLost] (sections 4.4 and 9): from [Playing]/[Paused] the
    Session starts reconnecting; while reconnecting each failure spends one
    retry, and with no retry left the Session terminates. *)
Definition connection_failure (s : Session) : StepResult :=
  match state s with
  | Playing | Paused => accept [Reconnecting] (with_state Reconnecting s)
  | Reconnecting =>
      match retries_left s with
      | 0 => shut_down ReasonConnectionLost s
      | S n => accept [Reconnecting] (with_retries n s)
      end
  | _ => reject s
  end.

(** Modelled from the spec: the Session's handling of one control call,
    event or [terminate()] call (sections 4.4 and 7); an input with no
    transition in the current state is answered [CommandRejected]. *)
Definition step (s : Session) (i : Input) : StepResult :=
  match i with
  | TerminateCall | Control Disconnect =>
      match state s with
      | Terminated => accept [] s
      | Terminating => accept [Terminated] (teardown s)
      | _ => shut_down ReasonLeave s
      end
  | Notify FatalError =>
      match state s with
      | Terminated | Terminating => reject s
      | _ => shut_down ReasonFatal s
      end
  | Notify JoinSucceeded =>
      match state s with
      | Connecting => accept [Playing] (join_ok s)
      | _ => reject s
      end
  | Notify JoinFailed =>
      match state s with
      | Connecting => accept [Terminated] (teardown (with_reason ReasonJoinFailed s))
      | _ => reject s
      end
  | Notify BackendPaused =>
      match state s with
      | Playing => accept [Paused] (with_state Paused s)
      | _ => reject s
      end
  | Notify BackendResumed =>
      match state s with
      | Paused => accept [Playing] (with_state Playing s)
      | _ => reject s
      end
  | Notify ConnectionLost | Notify TransportDisconnected => connection_failure s
  | Notify RejoinSucceeded =>
      match state s with
      | Reconnecting => accept [Playing] (with_retries retry_budget (with_state Playing s))
      | _ => reject s
      end
  | Control Pause =>
      match state s with
      | Playing => accept [Paused] (forward Pause (with_state Paused s))
      | _ => reject s
      end
  | Control Resume =>
      match state s with
      | Paused => accept [Playing] (forward Resume (with_state Playing s))
      | _ => reject s
      end
  | Control Play =>
      match state s with
      | Paused => accept [Playing] (forward Play (with_state Playing s))
      | _ => reject s
      end
  | Control Skip =>
      match state s with
      | Playing | Paused => accept [] (forward Skip s)
      | _ => reject s
      end
  | Control (SetVolume v) =>
      match state s with
      | Playing | Paused => accept [] (set_volume v s)
      | _ => reject s
      end
  end.

(** [terminate()] *)
Definition terminate (s : Session) : StepResult := step s TerminateCall.

(** A sequence of inputs: the states entered, and the final Session. *)
Fixpoint run (s : Session) (is : list Input) : list State * Session :=
  match is with
  | [] => ([], s)
  | i :: rest =>
      let r := step s i in
      let '(tr, s') := run (next r) rest in
      (trace r ++ tr, s')
  end.

End WithBudget.

(** The documented state machine of section 4.4, written from its words. *)
Inductive documented : State -> State -> Prop :=
  | doc_join : documented Connecting Playing
  | doc_join_failed : documented Connecting Terminated
  | doc_pause : documented Playing Paused
  | doc_resume : documented Paused Playing
  | doc_lost_playing : documented Playing Reconnecting
  | doc_lost_paused : documented Paused Reconnecting
  | doc_rejoin : documented Reconnecting Playing
  | doc_exhausted : documented Reconnecting Terminating
  | doc_leave st : st <> Terminated -> documented st Terminating
  | doc_finish : documented Terminating Terminated.

(** Replaying a list of entered states through the documented machine:
    each entered state is a documented successor of the previous one, or
    the previous state itself (no change of state). *)
Inductive replay : State -> list State -> State -> Prop :=
  | replay_nil st : replay st [] st
  | replay_move st st' tr fin :
      documented st st' -> replay st' tr fin -> replay st (st' :: tr) fin
  | replay_stay st tr fin : replay st tr fin -> replay st (st :: tr) fin.

(** The events that report a lost connection. *)
Definition is_loss (e : Event) : Prop := e = ConnectionLost \/ e = TransportDisconnected.

(** The invariant of every Session reached from [new_session]: a
    terminated Session holds no handle, a running one has no end reason, and
    outside a reconnection the retry budget is full. *)
Definition session_ok (retry_budget : nat) (s : Session) : Prop :=
  (state s = Terminated ->
     backend_open s = false /\ transport_joined s = false /\ relay_running s = false) /\
  (state s = Connecting \/ state s = Playing \/ state s = Paused \/ state s = Reconnecting ->
     end_reason s = None) /\
  (state s = Connecting \/ state s = Playing \/ state s = Paused ->
     retries_left s = retry_budget).

End Session.

(* ------------------------------------------------------------------ *)
(** ** The Session Manager *)

Module Manager.
Import Session.

(** Modelled from the spec: the Session Manager registry (sections 3 and
    4.5). Session instances live in a store indexed by an instance id; the
    registry maps a guild_id to the instance registered for it. *)
Record Manager := mkManager {
  sessions : gmap nat Session;
  registry : gmap nat nat;
  next_id : nat;
}.

Definition empty_manager : Manager := mkManager ∅ ∅ 0.

Section WithBudget.

Variable retry_budget : nat.

Definition terminate_instance (i : nat) (ss : gmap nat Session) : gmap nat Session :=
  alter (fun s => next (terminate retry_budget s)) i ss.

(** The store once the Session registered for [g], if any, is terminated. *)
Definition retire (g : nat) (m : Manager) : gmap nat Session :=
  match registry m !! g with
  | Some i => terminate_instance i (sessions m)
  | None => sessions m
  end.

(** Modelled from the spec: creating a Session for a guild first terminates
    the Session registered for it, if any (section 3). *)
Definition create (g : nat) (m : Manager) : nat * Manager :=
  let ss := retire g m in
  let i := next_id m in
  (i, mkManager (<[i := new_session retry_budget g]> ss) (<[g := i]> (registry m)) (S i)).

(** Modelled from the spec: [get_or_create] (section 4.5). *)
Definition get_or_create (g : nat) (m : Manager) : nat * Manager :=
  match registry m !! g with
  | Some i => (i, m)
  | None => create g m
  end.

(** Modelled from the spec: [get] (section 4.5). *)
Definition get (g : nat) (m : Manager) : option Session :=
  registry m !! g ≫= fun i => sessions m !! i.

(** Modelled from the spec: delivering a control call, event or
    [terminate()] to the Session of a guild; a Session that ends is removed
    from the registry (section 3, "Lifecycle"). *)
Definition dispatch (g : nat) (inp : Input) (m : Manager) : Outcome * Manager :=
  match registry m !! g with
  | Some i =>
      match sessions m !! i with
      | Some s =>
          let r := step retry_budget s inp in
          let reg := if decide (state (next r) = Terminated)
                     then delete g (registry m) else registry m in
          (outcome r, mkManager (<[i := next r]> (sessions m)) reg (next_id m))
      | None => (CommandRejected, m)
      end
  | None => (CommandRejected, m)
  end.

Definition playing_at (m : Manager) (i : nat) : bool :=
  match sessions m !! i with
  | Some s => bool_decide (state s = Playing)
  | None => false
  end.

(** Modelled from the spec: [active_session_count] counts the registered
    Sessions in state [Playing] (section 4.5). *)
Definition active_session_count (m : Manager) : nat :=
  length (filter (fun gi : nat * nat => playing_at m gi.2 = true) (map_to_list (registry m))).

(** Modelled from the spec: [shutdown_all] terminates every registered
    Session, waits for all of them, and leaves the registry empty (section
    4.5). The Sessions are independent, so the order does not matter. *)
Definition shutdown_all (m : Manager) : Manager :=
  mkManager
    (foldr (fun gi acc => terminate_instance gi.2 acc) (sessions m) (map_to_list (registry m)))
    ∅ (next_id m).

Inductive MOp :=
  | GetOrCreate (g : nat)
  | Create (g : nat)
  | Dispatch (g : nat) (inp : Input)
  | ShutdownAll.

Definition apply_op (m : Manager) (op : MOp) : Manager :=
  match op with
  | GetOrCreate g => (get_or_create g m).2
  | Create g => (create g m).2
  | Dispatch g inp => (dispatch g inp m).2
  | ShutdownAll => shutdown_all m
  end.

Definition run_ops (m : Manager) (ops : list MOp) : Manager :=
  fold_left apply_op ops m.

End WithBudget.

Definition creates (op : MOp) : bool :=
  match op with
  | GetOrCreate _ | Create _ => true
  | _ => false
  end.

(** The registry invariant: a registered instance exists, belongs to its
    guild and is live; a live instance is the one registered for its guild;
    instance ids are below [next_id]. *)
Definition mgr_inv (m : Manager) : Prop :=
  (forall g i, registry m !! g = Some i ->
     exists s, sessions m !! i = Some s /\ guild_id s = g /\ state s <> Terminated) /\
  (forall i s, sessions m !! i = Some s -> state s <> Terminated ->
     registry m !! guild_id s = Some i) /\
  (forall i s, sessions m !! i = Some s -> i < next_id m).

End Manager.

(* ------------------------------------------------------------------ *)
(** ** The Audio Relay *)

Module Relay.

Inductive Frame :=
  | Silence
  | Pcm (seq : nat).

(** What one read from the backend gives within the tick budget. *)
Inductive Poll :=
  | Ready
  | Late
  | Undecodable.

Inductive SendResult :=
  | SendOk
  | WouldBlock
  | TransportClosed.

(** Modelled from the spec: the state of the Audio Relay (section 4.3),
    driven by a synthetic backend whose frames not yet read are [pending]
    (in source order); [buffer] holds the frames waiting for the transport,
    oldest first; [delivered] is what the transport has accepted, in order;
    [attempts] counts the [send_frame] calls so far. *)
Record Relay := mkRelay {
  pending : list nat;
  buffer : list Frame;
  delivered : list Frame;
  dropped : list Frame;
  attempts : nat;
  closed : bool;
}.

(** The synthetic backend producing frames numbered 1..N. *)
Definition relay_init (n : nat) : Relay := mkRelay (seq 1 n) [] [] [] 0 false.

(** Modelled from the spec: one read of the backend (sections 4.1 and
    4.3): a chunk not available in time, a frame that fails to decode, and
    the end of the track all give a silence frame for this tick. *)
Definition pull (p : Poll) (pend : list nat) : Frame * list nat :=
  match p, pend with
  | Ready, n :: rest => (Pcm n, rest)
  | Ready, [] => (Silence, [])
  | Late, _ => (Silence, pend)
  | Undecodable, _ :: rest => (Silence, rest)
  | Undecodable, [] => (Silence, [])
  end.

Record Flush := mkFlush {
  sent : list Frame;
  lost : list Frame;
  remaining : list Frame;
  attempts_after : nat;
  closed_after : bool;
}.

(** Modelled from the spec: pushing the buffered frames to the transport
    (sections 4.2 and 4.3), oldest first; the k-th [send_frame] call gets
    the answer [sink k]. On [WouldBlock] the oldest buffered frame is
    dropped and the tick ends; on [TransportClosed] the relay stops. *)
Fixpoint flush (sink : nat -> SendResult) (buf : list Frame) (k : nat) : Flush :=
  match buf with
  | [] => mkFlush [] [] [] k false
  | f :: rest =>
      match sink k with
      | SendOk =>
          let r := flush sink rest (S k) in
          mkFlush (f :: sent r) (lost r) (remaining r) (attempts_after r) (closed_after r)
      | WouldBlock => mkFlush [] [f] rest (S k) false
      | TransportClosed => mkFlush [] [] buf (S k) true
      end
  end.

(** First half of a tick: read one frame (or silence) and buffer it. *)
Definition enqueue (p : Poll) (st : Relay) : Relay :=
  let '(f, pend) := pull p (pending st) in
  mkRelay pend (buffer st ++ [f]) (delivered st) (dropped st) (attempts st) (closed st).

(** Second half of a tick: push the buffer to the transport. *)
Definition send_buffered (sink : nat -> SendResult) (st : Relay) : Relay :=
  let r := flush sink (buffer st) (attempts st) in
  mkRelay (pending st) (remaining r) (delivered st ++ sent r) (dropped st ++ lost r)
    (attempts_after r) (closed_after r).

(** Modelled from the spec: one relay tick (section 4.3). A stopped relay
    does nothing. *)
Definition tick (sink : nat -> SendResult) (p : Poll) (st : Relay) : Relay :=
  if closed st then st else send_buffered sink (enqueue p st).

Fixpoint run (sink : nat -> SendResult) (ps : list Poll) (st : Relay) : Relay :=
  match ps with
  | [] => st
  | p :: rest => run sink rest (tick sink p st)
  end.

(** Every state the relay goes through, the states in the middle of a
    tick included. *)
Fixpoint states (sink : nat -> SendResult) (ps : list Poll) (st : Relay) : list Relay :=
  st :: match ps with
        | [] => []
        | p :: rest =>
            if closed st then states sink rest st
            else enqueue p st :: states sink rest (send_buffered sink (enqueue p st))
        end.

(** The frames the relay produces, one per tick, in order. *)
Fixpoint produced (ps : list Poll) (pend : list nat) : list Frame :=
  match ps with
  | [] => []
  | p :: rest => let '(f, pend') := pull p pend in f :: produced rest pend'
  end.

(** The sequence numbers of the real (non-silence) frames of a list. *)
Fixpoint reals (fs : list Frame) : list nat :=
  match fs with
  | [] => []
  | Silence :: rest => reals rest
  | Pcm n :: rest => n :: reals rest
  end.

(** The frame-order invariant: the real frames delivered, then those
    buffered, then the frames the backend has yet to give, form a sublist
    of the source sequence 1..N. *)
Definition order_inv (n : nat) (st : Relay) : Prop :=
  reals (delivered st) ++ reals (buffer st) ++ pending st `sublist_of` seq 1 n.

End Relay.

(* ------------------------------------------------------------------ *)
(** ** Process bootstrap ([main] in [src/main.rs]) *)

Module Main.

(** The process environment is a [gmap string string] whose values are
    byte strings (on Unix an environment value need not be UTF-8). *)

Definition in_range (lo hi b : nat) : bool := (lo <=? b) && (b <=? hi).
Definition cont (b : nat) : bool := in_range 128 191 b.

(** UTF-8 well-formedness, as checked by [OsString::into_string] and
    [Path::to_str] (the rules of [core::str::from_utf8]). *)
Fixpoint utf8_valid (bs : list nat) : bool :=
  match bs with
  | [] => true
  | b :: rest =>
      if b <? 128 then utf8_valid rest
      else if in_range 194 223 b then
        match rest with c1 :: r => cont c1 && utf8_valid r | _ => false end
      else if b =? 224 then
        match rest with c1 :: c2 :: r => in_range 160 191 c1 && cont c2 && utf8_valid r | _ => false end
      else if in_range 225 236 b || in_range 238 239 b then
        match rest with c1 :: c2 :: r => cont c1 && cont c2 && utf8_valid r | _ => false end
      else if b =? 237 then
        match rest with c1 :: c2 :: r => in_range 128 159 c1 && cont c2 && utf8_valid r | _ => false end
      else if b =? 240 then
        match rest with
        | c1 :: c2 :: c3 :: r => in_range 144 191 c1 && cont c2 && cont c3 && utf8_valid r
        | _ => false
        end
      else if in_range 241 243 b then
        match rest with
        | c1 :: c2 :: c3 :: r => cont c1 && cont c2 && cont c3 && utf8_valid r
        | _ => false
        end
      else if b =? 244 then
        match rest with
        | c1 :: c2 :: c3 :: r => in_range 128 143 c1 && cont c2 && cont c3 && utf8_valid r
        | _ => false
        end
      else false
  end.

Fixpoint bytes (s : string) : list nat :=
  match s with
  | EmptyString => []
  | String c rest => Ascii.nat_of_ascii c :: bytes rest
  end.

Inductive VarError :=
  | NotPresent
  | NotUnicode.

(** [std::env::var] *)
Definition env_var (env : gmap string string) (k : string) : VarError + string :=
  match env !! k with
  | None => inl NotPresent
  | Some v => if utf8_valid (bytes v) then inr v else inl NotUnicode
  end.

(** A [.env] file found by [dotenv()]: its path and its lines, a line that
    does not parse being [None]. *)
Record DotEnvFile := mkDotEnvFile {
  env_path : string;
  env_lines : list (option (string * string));
}.

(** Whether a value holds a NUL byte, which [std::env::set_var] refuses
    with a panic. *)
Definition contains_nul (v : string) : bool := existsb (Nat.eqb 0) (bytes v).

(** How loading the lines of a [.env] file ends. *)
Inductive LoadEnd :=
  | Loaded
  | ParseError
  | SetVarPanic.

(** [dotenv::Iter::load]: each entry is set with [env::set_var] unless
    [env::var] already succeeds for its key; loading stops with an error at
    the first line that does not parse. [set_var] panics on a value holding
    a NUL byte (the parser only yields keys [set_var] accepts). *)
Fixpoint load_lines (lines : list (option (string * string))) (env : gmap string string)
    : gmap string string * LoadEnd :=
  match lines with
  | [] => (env, Loaded)
  | None :: _ => (env, ParseError)
  | Some (k, v) :: rest =>
      match env_var env k with
      | inr _ => load_lines rest env
      | inl _ => if contains_nul v then (env, SetVarPanic) else load_lines rest (<[k := v]> env)
      end
  end.

(** What [dotenv::dotenv()] does: return [Ok(path)], return an error (no
    file found, or a line that does not parse), or panic inside [set_var]. *)
Inductive DotEnvResult :=
  | DotEnvOk (path : string)
  | DotEnvErr
  | DotEnvPanic.

Definition dotenv_set_var_panic : string := "failed to set environment variable".

Definition dotenv (found : option DotEnvFile) (env : gmap string string)
    : gmap string string * DotEnvResult :=
  match found with
  | None => (env, DotEnvErr)
  | Some f =>
      let '(env', e) := load_lines (env_lines f) env in
      (env', match e with
             | Loaded => DotEnvOk (env_path f)
             | ParseError => DotEnvErr
             | SetVarPanic => DotEnvPanic
             end)
  end.

Inductive Action :=
  | LogDebugEnvFile (path : string)
  | LogWarnNoEnvFile
  | CreateSessionManager
  | BuildClient (token : string).

Inductive Startup :=
  | Panicked (msg : string) (done : list Action)
  | Proceeded (done : list Action) (token db_url : string).

(** Lines 46-55 once [dotenv()] has returned or panicked. [LogDebugEnvFile]
    and [LogWarnNoEnvFile] mean the [debug!] or [warn!] statement is
    reached. [debug_args] tells whether [debug!] evaluates its arguments,
    that is whether [log::max_level()], set by [env_logger::init()], admits
    [Debug]; only then does [path.to_str().expect(..)] run. *)
Definition env_file_log (debug_args : bool) (result : DotEnvResult) : string + list Action :=
  match result with
  | DotEnvPanic => inl dotenv_set_var_panic
  | DotEnvOk path =>
      if debug_args && negb (utf8_valid (bytes path)) then inl "to get the string"%string
      else inr [LogDebugEnvFile path]
  | DotEnvErr => inr [LogWarnNoEnvFile]
  end.

(** [main], lines 46-65 of [src/main.rs] (the [stats] feature off): load
    [.env], log, read [DISCORD_TOKEN] and [DATABASE_URL] with [expect], then
    create the session manager. [Proceeded] means execution went past line
    65; the gateway client is built only after that. *)
Definition main_startup (debug_args : bool) (found : option DotEnvFile)
    (env : gmap string string) : Startup :=
  let '(env1, result) := dotenv found env in
  match env_file_log debug_args result with
  | inl msg => Panicked msg []
  | inr log =>
      match env_var env1 "DISCORD_TOKEN" with
      | inl _ => Panicked "a token in the environment" log
      | inr token =>
          match env_var env1 "DATABASE_URL" with
          | inl _ => Panicked "a database URL in the environment" log
          | inr db => Proceeded (log ++ [CreateSessionManager]) token db
          end
      end
  end.

(** What wakes the background task's [tokio::select!] (lines 101-150):
    the 60 s sleep, [ctrl_c()], or the Unix terminate signal stream (its
    [recv()] yields [Some ()] or [None]; the branch runs either way). *)
Inductive Wakeup :=
  | SleepElapsed (server_ok active_ok : bool)
  | CtrlC
  | TermSignal (received : option unit).

Inductive Effect :=
  | QueryGuildCount
  | QueryActiveCount
  | SetServerCount
  | SetActiveCount
  | LogError
  | LogInfo (msg : string)
  | SessionManagerShutdown
  | ShardShutdownAll.

(** The body of the sleep branch with the [stats] feature on or off. *)
Definition stats_update (stats : bool) (server_ok active_ok : bool) : list Effect :=
  if stats then
    [QueryGuildCount; QueryActiveCount; SetServerCount]
    ++ (if server_ok then [] else [LogError])
    ++ [SetActiveCount]
    ++ (if active_ok then [] else [LogError])
  else [].

Definition shutdown_branch (msg : string) : list Effect :=
  [LogInfo msg; SessionManagerShutdown; ShardShutdownAll].

(** The background task's loop (lines 101-150), run on the sequence of
    branches [select!] picks. [term_some] is [term.is_some()]: [true] on
    Unix, [false] elsewhere, where the terminate branch is disabled and
    never picked. *)
Fixpoint coordinator (stats term_some : bool) (ws : list Wakeup) : list Effect :=
  match ws with
  | [] => []
  | SleepElapsed a b :: rest => stats_update stats a b ++ coordinator stats term_some rest
  | CtrlC :: _ => shutdown_branch "Received interrupt signal, shutting down..."
  | TermSignal _ :: rest =>
      if term_some then shutdown_branch "Received terminate signal, shutting down..."
      else coordinator stats term_some rest
  end.

Definition is_stats_effect (e : Effect) : bool :=
  match e with
  | QueryGuildCount | QueryActiveCount | SetServerCount | SetActiveCount | LogError => true
  | _ => false
  end.

(** [main], lines 46-65 of [src/main.rs] with the [stats] feature on or
    off: as [main_startup], and with [stats] on, lines 60-63 also read
    [KV_URL] and connect to redis ([redis_ok url]), both with [expect]. *)
Definition main_startup_with (stats : bool) (redis_ok : string -> bool) (debug_args : bool)
    (found : option DotEnvFile) (env : gmap string string) : Startup :=
  let '(env1, result) := dotenv found env in
  match env_file_log debug_args result with
  | inl msg => Panicked msg []
  | inr log =>
      match env_var env1 "DISCORD_TOKEN" with
      | inl _ => Panicked "a token in the environment" log
      | inr token =>
          match env_var env1 "DATABASE_URL" with
          | inl _ => Panicked "a database URL in the environment" log
          | inr db =>
              if stats then
                match env_var env1 "KV_URL" with
                | inl _ => Panicked "a redis URL in the environment" log
                | inr kv =>
                    if redis_ok kv then Proceeded (log ++ [CreateSessionManager]) token db
                    else Panicked "Failed to connect to redis" log
                end
              else Proceeded (log ++ [CreateSessionManager]) token db
          end
      end
  end.

(** Lines 29-39: without a usable [RUST_LOG] ([env::var] fails: absent or
    not Unicode), [main] sets it to the build's default. *)
Definition default_log_filter (debug_assertions : bool) : string :=
  if debug_assertions then "spoticord" else "spoticord=info".

Definition set_default_rust_log (debug_assertions : bool) (env : gmap string string)
    : gmap string string :=
  match env_var env "RUST_LOG" with
  | inr _ => env
  | inl _ => <["RUST_LOG" := default_log_filter debug_assertions]> env
  end.

(** What the calls of [main] into other crates answer: whether, after
    [env_logger::init()] with this [RUST_LOG] (line 41), [log::max_level()]
    admits [Debug]; redis connection for a URL (line 62), the client builder for a token (lines 68-76), the
    Unix terminate signal stream (lines 92-95), and the gateway run (line
    153). *)
Record Externals := mkExternals {
  debug_enabled : option string -> bool;
  redis_ok : string -> bool;
  client_ok : string -> bool;
  signal_ok : bool;
  gateway_ok : bool;
}.

Inductive ProcessEnd :=
  | EndPanic (msg : string)
  | EndExit (code : nat)
  | EndReturn.

(** The entries [main] inserts in the client's data (lines 78-84). *)
Inductive DataEntry :=
  | DataDatabase (url : string)
  | DataCommandManager
  | DataSessionManager.

Record MainTrace := mkMainTrace {
  log_filter : option string;
  client_data : list DataEntry;
  coordinator_spawned : bool;
  gateway_started : bool;
  ended : ProcessEnd;
}.

(** [main] (lines 28-157) for a build ([debug_assertions], [stats], Unix
    or not), a [.env] file found or not, the process environment and the
    answers of the other crates. [env_logger::init()] (line 41) reads
    [RUST_LOG] before [.env] is loaded. *)
Definition main_process (debug_assertions stats unix : bool) (x : Externals)
    (found : option DotEnvFile) (env0 : gmap string string) : MainTrace :=
  let env := set_default_rust_log debug_assertions env0 in
  let filter := match env_var env "RUST_LOG" with inr v => Some v | inl _ => None end in
  match main_startup_with stats (redis_ok x) (debug_enabled x filter) found env with
  | Panicked msg _ => mkMainTrace filter [] false false (EndPanic msg)
  | Proceeded _ token db =>
      if client_ok x token then
        let data := [DataDatabase db; DataCommandManager; DataSessionManager] in
        if unix && negb (signal_ok x) then
          mkMainTrace filter data false false (EndPanic "to be able to create the signal stream")
        else
          mkMainTrace filter data true true (if gateway_ok x then EndReturn else EndExit 1)
      else mkMainTrace filter [] false false (EndPanic "to create a client")
  end.

(** The sleep-branch results [select!] runs before the loop is left. *)
Fixpoint sleeps_before (term_some : bool) (ws : list Wakeup) : list (bool * bool) :=
  match ws with
  | [] => []
  | SleepElapsed a c :: rest => (a, c) :: sleeps_before term_some rest
  | CtrlC :: _ => []
  | TermSignal _ :: rest => if term_some then [] else sleeps_before term_some rest
  end.

Definition count_effects (p : Effect -> bool) (es : list Effect) : nat :=
  length (List.filter p es).

Definition is_set_server_count (e : Effect) : bool :=
  match e with SetServerCount => true | _ => false end.
Definition is_set_active_count (e : Effect) : bool :=
  match e with SetActiveCount => true | _ => false end.
Definition is_log_error (e : Effect) : bool :=
  match e with LogError => true | _ => false end.
Definition is_shutdown (e : Effect) : bool :=
  match e with SessionManagerShutdown | ShardShutdownAll => true | _ => false end.

(** A wakeup whose [select!] branch leaves the loop. *)
Definition is_shutdown_trigger (term_some : bool) (w : Wakeup) : bool :=
  match w with CtrlC => true | TermSignal _ => term_some | SleepElapsed _ _ => false end.

End Main.

(* ================================================================== *)
(** * Properties *)

Module SessionFacts.
Import Session.

Lemma terminate_state (b : nat) (s : Session) :
  state (next (terminate b s)) = Terminated.
Proof. unfold terminate, step; destruct (state s) eqn:Hs; simpl; auto. Qed.

Lemma step_guild (b : nat) (s : Session) (i : Input) :
  guild_id (next (step b s i)) = guild_id s.
Proof.
  unfold step, connection_failure.
  destruct i as [[]|[]|]; destruct (state s); try reflexivity;
    destruct (retries_left s); reflexivity.
Qed.

Lemma step_replay (b : nat) (s : Session) (i : Input) :
  replay (state s) (trace (step b s i)) (state (next (step b s i))).
Proof.
  unfold step, connection_failure.
  destruct i as [[]|[]|]; destruct (state s) eqn:Hs; simpl;
    try (destruct (retries_left s); simpl); try rewrite Hs;
    repeat (first [ apply replay_nil
                  | apply replay_move; [constructor; try congruence|]
                  | apply replay_stay ]).
Qed.

Lemma replay_app (a : State) (l : list State) (b : State) (l' : list State) (c : State) :
  replay a l b -> replay b l' c -> replay a (l ++ l') c.
Proof.
  induction 1; simpl; intros; auto.
  - eapply replay_move; eauto.
  - apply replay_stay; auto.
Qed.

Lemma replay_from_terminated (l : list State) (c : State) :
  replay Terminated l c -> c = Terminated /\ Forall (eq Terminated) l.
Proof.
  remember Terminated as t eqn:Ht; induction 1; subst.
  - split; [reflexivity | constructor].
  - inversion H; congruence.
  - destruct IHreplay as [? ?]; auto.
Qed.

Lemma step_rejected (b : nat) (s : Session) (i : Input) :
  outcome (step b s i) = CommandRejected -> next (step b s i) = s /\ trace (step b s i) = [].
Proof.
  unfold step, connection_failure.
  destruct i as [[]|[]|]; destruct (state s); simpl; try discriminate; auto;
    destruct (retries_left s); simpl; try discriminate; auto.
Qed.

Lemma step_ok (b : nat) (s : Session) (i : Input) :
  session_ok b s -> session_ok b (next (step b s i)).
Proof.
  unfold session_ok, step, connection_failure.
  intros (H1 & H2 & H3).
  destruct i as [[]|[]|]; destruct (state s) eqn:Hs; simpl;
    try (match goal with
         | |- context [match retries_left s with _ => _ end] =>
             destruct (retries_left s) eqn:Hr
         end; simpl);
    rewrite ?Hs; intuition (try discriminate; try congruence).
Qed.

Lemma run_cons (b : nat) (s : Session) (i : Input) (rest : list Input) :
  run b s (i :: rest) =
    (trace (step b s i) ++ (run b (next (step b s i)) rest).1,
     (run b (next (step b s i)) rest).2).
Proof. simpl. destruct (run b (next (step b s i)) rest); reflexivity. Qed.

Lemma run_app (b : nat) (s : Session) (is1 is2 : list Input) :
  run b s (is1 ++ is2) =
    ((run b s is1).1 ++ (run b (run b s is1).2 is2).1, (run b (run b s is1).2 is2).2).
Proof.
  revert s; induction is1 as [|i rest IH]; intros s; simpl.
  - destruct (run b s is2); reflexivity.
  - rewrite IH. destruct (run b (next (step b s i)) rest) as [tr s'] eqn:E; simpl.
    rewrite app_assoc. reflexivity.
Qed.

Lemma run_replay (b : nat) (s : Session) (is : list Input) :
  replay (state s) (run b s is).1 (state (run b s is).2).
Proof.
  revert s; induction is as [|i rest IH]; intros s.
  - apply replay_nil.
  - rewrite run_cons; simpl. eapply replay_app; [apply step_replay | apply IH].
Qed.

Lemma run_ok (b : nat) (s : Session) (is : list Input) :
  session_ok b s -> session_ok b (run b s is).2.
Proof.
  revert s; induction is as [|i rest IH]; intros s H; [exact H|].
  rewrite run_cons; simpl. apply IH, step_ok, H.
Qed.


Lemma losses_while_reconnecting (b : nat) (ls : list Event) (s : Session) :
  state s = Reconnecting -> Forall is_loss ls -> length ls <= retries_left s ->
  exists s', run b s (map Notify ls) = (repeat Reconnecting (length ls), s') /\
    state s' = Reconnecting /\ retries_left s' = retries_left s - length ls /\
    end_reason s' = end_reason s.
Proof.
  revert s; induction ls as [|e rest IH]; intros s Hs Hl Hlen.
  - exists s; simpl; repeat split; auto; lia.
  - inversion Hl as [|? ? He Hrest]; subst. simpl in Hlen.
    destruct (retries_left s) as [|r] eqn:Hr; [lia|].
    assert (Hstep : step b s (Notify e) = accept [Reconnecting] (with_retries r s)).
    { destruct He as [-> | ->]; simpl; unfold connection_failure; rewrite Hs, Hr; reflexivity. }
    destruct (IH (with_retries r s)) as (s' & Hrun & H1 & H2 & H3);
      [exact Hs | exact Hrest | simpl; lia |].
    exists s'. cbn [map]. rewrite run_cons, Hstep. unfold accept; cbn [trace next].
    rewrite Hrun. simpl in H2, H3. repeat split; auto; lia.
Qed.

Lemma loss_from_running (b : nat) (s : Session) (e : Event) :
  (state s = Playing \/ state s = Paused) -> is_loss e ->
  step b s (Notify e) = accept [Reconnecting] (with_state Reconnecting s).
Proof.
  intros Hst He.
  destruct He as [-> | ->]; simpl; unfold connection_failure;
    destruct Hst as [-> | ->]; reflexivity.
Qed.

End SessionFacts.

Module ManagerFacts.
Import Session SessionFacts Manager.

Section Facts.

Variable b : nat.

Lemma retire_other (g : nat) (m : Manager) (k : nat) :
  registry m !! g <> Some k -> retire b g m !! k = sessions m !! k.
Proof.
  unfold retire, terminate_instance. intros H.
  destruct (registry m !! g) as [i|] eqn:E; [|reflexivity].
  apply lookup_alter_ne. congruence.
Qed.

Lemma retire_registered (g : nat) (m : Manager) (i : nat) (s : Session) :
  registry m !! g = Some i -> sessions m !! i = Some s ->
  retire b g m !! i = Some (next (terminate b s)).
Proof.
  unfold retire, terminate_instance. intros -> Hs.
  rewrite lookup_alter_eq, Hs. reflexivity.
Qed.

Lemma retire_is_Some (g : nat) (m : Manager) (k : nat) :
  is_Some (retire b g m !! k) <-> is_Some (sessions m !! k).
Proof.
  unfold retire, terminate_instance.
  destruct (registry m !! g); [apply lookup_alter_is_Some | reflexivity].
Qed.

Lemma inv_empty : mgr_inv empty_manager.
Proof.
  unfold mgr_inv, empty_manager; simpl.
  repeat split; intros ? ?; rewrite lookup_empty; discriminate.
Qed.

Lemma inv_create (g : nat) (m : Manager) :
  mgr_inv m -> mgr_inv (create b g m).2.
Proof.
  intros (R1 & R2 & R3). unfold create, mgr_inv; simpl.
  (* a registered id other than the one of [g] is not touched by [retire] *)
  assert (Hother : forall g' i', g' <> g -> registry m !! g' = Some i' ->
            registry m !! g <> Some i').
  { intros g' i' Hne Hg' Hg.
    destruct (R1 _ _ Hg') as (s1 & Hs1 & Hgs1 & _).
    destruct (R1 _ _ Hg) as (s2 & Hs2 & Hgs2 & _).
    rewrite Hs1 in Hs2; injection Hs2 as <-. congruence. }
  split; [|split].
  - intros g' i' Hg'.
    rewrite lookup_insert_Some in Hg'.
    destruct Hg' as [[<- <-] | [Hne Hg']].
    + exists (new_session b g). rewrite lookup_insert_eq. repeat split; discriminate.
    + destruct (R1 _ _ Hg') as (s1 & Hs1 & Hgs1 & Hl1).
      assert (Hlt : i' < next_id m) by (eapply R3; eauto).
      exists s1. rewrite lookup_insert_ne by lia.
      rewrite retire_other by (apply (Hother g'); auto).
      auto.
  - intros i s Hs Hlive.
    rewrite lookup_insert_Some in Hs.
    destruct Hs as [[<- <-] | [Hne Hs]].
    + simpl. apply lookup_insert_eq.
    + destruct (decide (registry m !! g = Some i)) as [Hg|Hg].
      * destruct (R1 _ _ Hg) as (s0 & Hs0 & _).
        rewrite (retire_registered g m i s0 Hg Hs0) in Hs. injection Hs as <-.
        exfalso; apply Hlive, terminate_state.
      * rewrite retire_other in Hs by exact Hg.
        assert (Hreg := R2 _ _ Hs Hlive).
        rewrite lookup_insert_ne; [exact Hreg|].
        intros Heq. apply Hg. rewrite Heq. exact Hreg.
  - intros i s Hs.
    rewrite lookup_insert_Some in Hs.
    destruct Hs as [[<- _] | [Hne Hs]]; [lia|].
    assert (His : is_Some (sessions m !! i)).
    { apply (retire_is_Some g). rewrite Hs. eauto. }
    destruct His as [s0 Hs0]. specialize (R3 _ _ Hs0). lia.
Qed.

Lemma inv_get_or_create (g : nat) (m : Manager) :
  mgr_inv m -> mgr_inv (get_or_create b g m).2.
Proof.
  unfold get_or_create. destruct (registry m !! g); [auto | apply inv_create].
Qed.

Lemma inv_dispatch (g : nat) (inp : Input) (m : Manager) :
  mgr_inv m -> mgr_inv (dispatch b g inp m).2.
Proof.
  intros Hinv. pose proof Hinv as (R1 & R2 & R3).
  unfold dispatch.
  destruct (registry m !! g) as [i|] eqn:Hg; [|exact Hinv].
  destruct (sessions m !! i) as [s|] eqn:Hs; [|exact Hinv].
  destruct (R1 _ _ Hg) as (s' & Hs' & Hgs & _).
  rewrite Hs in Hs'; injection Hs' as <-.
  set (s1 := next (step b s inp)).
  assert (Hg1 : guild_id s1 = g) by (unfold s1; rewrite step_guild; exact Hgs).
  (* another registered guild has another instance *)
  assert (Hdiff : forall g' i', g' <> g -> registry m !! g' = Some i' -> i' <> i).
  { intros g' i' Hne Hg' ->.
    destruct (R1 _ _ Hg') as (s2 & Hs2 & Hgs2 & _).
    rewrite Hs in Hs2; injection Hs2 as <-. congruence. }
  unfold mgr_inv; simpl. split; [|split].
  - intros g' i' Hreg.
    assert (Hcase : (g' = g /\ i' = i /\ state s1 <> Terminated) \/
                    (g' <> g /\ registry m !! g' = Some i')).
    { destruct (decide (state s1 = Terminated)) as [Ht|Ht].
      - right. rewrite lookup_delete_Some in Hreg. destruct Hreg; split; auto.
      - destruct (decide (g' = g)) as [->|Hne]; [left | right]; auto.
        rewrite Hg in Hreg; injection Hreg as <-. auto. }
    destruct Hcase as [(-> & -> & Hlive) | (Hne & Hreg')].
    + exists s1. rewrite lookup_insert_eq. auto.
    + destruct (R1 _ _ Hreg') as (s2 & Hs2 & ? & ?).
      exists s2. rewrite lookup_insert_ne by (apply not_eq_sym, (Hdiff g'); auto). auto.
  - intros k t Hk Hlive.
    rewrite lookup_insert_Some in Hk.
    destruct Hk as [[<- <-] | [Hne Hk]].
    + destruct (decide (state s1 = Terminated)); [contradiction|].
      rewrite Hg1. exact Hg.
    + assert (Hreg := R2 _ _ Hk Hlive).
      assert (Hgt : guild_id t <> g) by (intros Heq; rewrite Heq, Hg in Hreg; congruence).
      destruct (decide (state s1 = Terminated)); [|exact Hreg].
      rewrite lookup_delete_ne by congruence. exact Hreg.
  - intros k t Hk.
    rewrite lookup_insert_Some in Hk.
    destruct Hk as [[<- _] | [_ Hk]]; eauto.
Qed.

Lemma fold_terminate_lookup (l : list (nat * nat)) (ss : gmap nat Session) (k : nat) (t : Session) :
  foldr (fun gi acc => terminate_instance b gi.2 acc) ss l !! k = Some t ->
  state t = Terminated \/ (ss !! k = Some t /\ forall g, (g, k) ∉ l).
Proof.
  revert t; induction l as [|[g0 i0] l IH]; intros t H; simpl in *.
  - right. split; [exact H|]. intros g Hin. inversion Hin.
  - unfold terminate_instance in H. rewrite lookup_alter_Some in H.
    destruct H as [(<- & x & _ & ->) | (Hne & H)].
    + left. apply terminate_state.
    + destruct (IH t H) as [Ht | (Hss & Hnot)]; [left; exact Ht|].
      right. split; [exact Hss|]. intros g Hin.
      apply elem_of_cons in Hin as [Heq | Hin].
      * injection Heq as _ ->. contradiction.
      * exact (Hnot g Hin).
Qed.

Lemma fold_terminate_is_Some (l : list (nat * nat)) (ss : gmap nat Session) (k : nat) :
  is_Some (foldr (fun gi acc => terminate_instance b gi.2 acc) ss l !! k) <-> is_Some (ss !! k).
Proof.
  induction l as [|gi l IH]; simpl; [reflexivity|].
  unfold terminate_instance. rewrite lookup_alter_is_Some. exact IH.
Qed.

Lemma shutdown_all_terminated (m : Manager) (Hinv : mgr_inv m) (i : nat) (t : Session) :
  sessions (shutdown_all b m) !! i = Some t -> state t = Terminated.
Proof.
  destruct Hinv as (_ & R2 & _).
  unfold shutdown_all; simpl. intros H.
  destruct (fold_terminate_lookup _ _ _ _ H) as [Ht | (Hss & Hnot)]; [exact Ht|].
  destruct (decide (state t = Terminated)) as [Ht|Hlive]; [exact Ht|].
  exfalso. apply (Hnot (guild_id t)).
  apply elem_of_map_to_list. apply R2; assumption.
Qed.

Lemma inv_shutdown_all (m : Manager) :
  mgr_inv m -> mgr_inv (shutdown_all b m).
Proof.
  intros Hinv. pose proof Hinv as (_ & _ & R3).
  unfold mgr_inv; split; [|split].
  - intros g i H. simpl in H. rewrite lookup_empty in H. discriminate.
  - intros i t Ht Hlive. exfalso. apply Hlive. eapply shutdown_all_terminated; eauto.
  - intros i t Ht. simpl in Ht.
    assert (His : is_Some (sessions m !! i)).
    { apply (fold_terminate_is_Some (map_to_list (registry m))). rewrite Ht. eauto. }
    destruct His as [s0 Hs0]. exact (R3 _ _ Hs0).
Qed.

Lemma inv_apply_op (m : Manager) (op : MOp) :
  mgr_inv m -> mgr_inv (apply_op b m op).
Proof.
  destruct op; simpl.
  - apply inv_get_or_create.
  - apply inv_create.
  - apply inv_dispatch.
  - apply inv_shutdown_all.
Qed.

Lemma inv_run_ops (ops : list MOp) (m : Manager) :
  mgr_inv m -> mgr_inv (run_ops b m ops).
Proof.
  unfold run_ops. revert m; induction ops as [|op ops IH]; intros m H; simpl; auto.
  apply IH, inv_apply_op, H.
Qed.

Lemma reachable_inv (ops : list MOp) : mgr_inv (run_ops b empty_manager ops).
Proof. apply inv_run_ops, inv_empty. Qed.

End Facts.

End ManagerFacts.

Module RelayFacts.
Import Relay.

Lemma reals_app (l1 l2 : list Frame) : reals (l1 ++ l2) = reals l1 ++ reals l2.
Proof.
  induction l1 as [|[|m] l1 IH]; simpl; auto. rewrite IH. reflexivity.
Qed.

Lemma flush_split (sink : nat -> SendResult) (buf : list Frame) (k : nat) :
  buf = sent (flush sink buf k) ++ lost (flush sink buf k) ++ remaining (flush sink buf k).
Proof.
  revert k; induction buf as [|f rest IH]; intros k; simpl; [reflexivity|].
  destruct (sink k); simpl; auto.
  f_equal. apply IH.
Qed.

Lemma pull_order (p : Poll) (pend : list nat) :
  reals [(pull p pend).1] ++ (pull p pend).2 `sublist_of` pend.
Proof.
  destruct p, pend as [|m rest]; simpl; try reflexivity.
  apply sublist_cons. reflexivity.
Qed.

Lemma enqueue_order (n : nat) (p : Poll) (st : Relay) :
  order_inv n st -> order_inv n (enqueue p st).
Proof.
  unfold order_inv, enqueue. intros H.
  pose proof (pull_order p (pending st)) as Hp.
  destruct (pull p (pending st)) as [f pend] eqn:E; simpl in *.
  etransitivity; [|exact H].
  rewrite reals_app, <- !app_assoc.
  apply sublist_app; [reflexivity|].
  apply sublist_app; [reflexivity|].
  exact Hp.
Qed.

Lemma send_order (n : nat) (sink : nat -> SendResult) (st : Relay) :
  order_inv n st -> order_inv n (send_buffered sink st).
Proof.
  unfold order_inv, send_buffered. intros H; simpl.
  pose proof (flush_split sink (buffer st) (attempts st)) as Hs.
  remember (flush sink (buffer st) (attempts st)) as fr eqn:Efr.
  etransitivity; [|exact H].
  rewrite Hs.
  rewrite !reals_app, <- !app_assoc.
  apply sublist_app; [reflexivity|].
  apply sublist_app; [reflexivity|].
  apply sublist_inserts_l. reflexivity.
Qed.

Lemma run_order (n : nat) (sink : nat -> SendResult) (ps : list Poll) (st : Relay) :
  order_inv n st -> order_inv n (run sink ps st).
Proof.
  revert st; induction ps as [|p ps IH]; intros st H; simpl; [exact H|].
  apply IH. unfold tick. destruct (closed st); [exact H|].
  apply send_order, enqueue_order, H.
Qed.

Lemma seq_strongly_sorted (start len : nat) : StronglySorted lt (seq start len).
Proof.
  revert start; induction len as [|len IH]; intros start; simpl; constructor; auto.
  apply Forall_forall. intros x Hx. apply elem_of_seq in Hx. lia.
Qed.

Lemma sublist_strongly_sorted (l1 l2 : list nat) :
  StronglySorted lt l2 -> l1 `sublist_of` l2 -> StronglySorted lt l1.
Proof.
  intros Hs Hsub. revert Hs. induction Hsub as [|x l1 l2 Hsub IH|x l1 l2 Hsub IH];
    intros Hs; [constructor| |].
  - inversion Hs as [|? ? Hs' Hf]; subst. constructor; [auto|].
    apply Forall_forall. intros y Hy. rewrite Forall_forall in Hf. apply Hf.
    eapply elem_of_sublist; [|exact Hsub]. exact Hy.
  - inversion Hs; subst. auto.
Qed.

(** With a sink that accepts every frame, each tick delivers the frame it
    produced. *)
Lemma flush_all_ok (sink : nat -> SendResult) (Hok : forall k, sink k = SendOk)
    (buf : list Frame) (k : nat) :
  sent (flush sink buf k) = buf /\ remaining (flush sink buf k) = [] /\
  lost (flush sink buf k) = [] /\ closed_after (flush sink buf k) = false.
Proof.
  revert k; induction buf as [|f rest IH]; intros k; simpl; [auto|].
  rewrite Hok; simpl. destruct (IH (S k)) as (-> & -> & -> & ->). auto.
Qed.

Lemma run_all_ok (sink : nat -> SendResult) (Hok : forall k, sink k = SendOk)
    (ps : list Poll) (st : Relay) :
  buffer st = [] -> closed st = false ->
  delivered (run sink ps st) = delivered st ++ produced ps (pending st).
Proof.
  revert st; induction ps as [|p ps IH]; intros st Hb Hc; simpl; [rewrite app_nil_r; reflexivity|].
  unfold tick; rewrite Hc.
  unfold send_buffered, enqueue.
  destruct (pull p (pending st)) as [f pend] eqn:E; simpl.
  destruct (flush_all_ok sink Hok (buffer st ++ [f]) (attempts st)) as (Hs & Hr & Hl & Hcl).
  rewrite IH; simpl; rewrite ?Hr, ?Hcl; auto.
  rewrite Hs, Hb. simpl. rewrite <- app_assoc. reflexivity.
Qed.

Lemma produced_length (ps : list Poll) (pend : list nat) :
  length (produced ps pend) = length ps.
Proof.
  revert pend; induction ps as [|p ps IH]; intros pend; simpl; auto.
  destruct (pull p pend); simpl; auto.
Qed.

(** With a sink that always answers [WouldBlock], the buffer never holds
    more than the frame of the current tick, nothing is delivered, and
    every produced frame is dropped. *)
Lemma blocked_run (ps : list Poll) (st : Relay) :
  buffer st = [] -> closed st = false ->
  Forall (fun st' => length (buffer st') <= 1) (states (fun _ => WouldBlock) ps st) /\
  delivered (run (fun _ => WouldBlock) ps st) = delivered st /\
  dropped (run (fun _ => WouldBlock) ps st) = dropped st ++ produced ps (pending st).
Proof.
  revert st; induction ps as [|p ps IH]; intros st Hb Hc; simpl.
  - split; [constructor; [rewrite Hb; simpl; lia | constructor]|].
    split; [reflexivity | rewrite app_nil_r; reflexivity].
  - rewrite Hc. unfold tick; rewrite Hc.
    unfold send_buffered, enqueue.
    destruct (pull p (pending st)) as [f pend] eqn:E. rewrite Hb. simpl.
    destruct (IH (mkRelay pend [] (delivered st ++ []) (dropped st ++ [f]) (S (attempts st)) false))
      as (H1 & H2 & H3); [reflexivity | reflexivity |].
    split; [|split].
    + constructor; [rewrite Hb; simpl; lia|]. constructor; [simpl; lia|]. exact H1.
    + rewrite H2. simpl. apply app_nil_r.
    + rewrite H3. simpl. rewrite <- app_assoc. reflexivity.
Qed.

End RelayFacts.

Module MainFacts.
Import Main.

Lemma load_lines_keeps (lines : list (option (string * string))) (env : gmap string string)
    (k v : string) :
  env_var env k = inr v -> env_var (load_lines lines env).1 k = inr v.
Proof.
  revert env; induction lines as [|[[k' v']|] rest IH]; intros env H; simpl; auto.
  destruct (env_var env k') as [e|v0] eqn:E; [|apply IH; exact H].
  destruct (contains_nul v'); [exact H|].
  apply IH.
  assert (Hne : k' <> k) by (intros ->; congruence).
  unfold env_var in *. rewrite lookup_insert_ne by exact Hne. exact H.
Qed.

Lemma dotenv_keeps (found : option DotEnvFile) (env : gmap string string) (k v : string) :
  env_var env k = inr v -> env_var (dotenv found env).1 k = inr v.
Proof.
  destruct found as [f|]; simpl; [|auto].
  intros H. pose proof (load_lines_keeps (env_lines f) env k v H) as H'.
  destruct (load_lines (env_lines f) env); exact H'.
Qed.

Lemma coordinator_shape (stats term_some : bool) (ws : list Wakeup) :
  exists pre, Forall (fun e => is_stats_effect e = true) pre /\
    (coordinator stats term_some ws = pre \/
     exists msg, coordinator stats term_some ws =
                   pre ++ [LogInfo msg; SessionManagerShutdown; ShardShutdownAll]).
Proof.
  induction ws as [|w ws IH]; simpl.
  - exists []. split; auto.
  - destruct w as [a c| |r].
    + destruct IH as (pre & Hpre & Hshape).
      exists (stats_update stats a c ++ pre). split.
      * apply Forall_app; split; [|exact Hpre].
        unfold stats_update. destruct stats, a, c; repeat constructor.
      * destruct Hshape as [-> | (msg & ->)]; [left; reflexivity|].
        right. exists msg. rewrite app_assoc. reflexivity.
    + exists []. split; [constructor|]. right. eexists. reflexivity.
    + destruct term_some; [|exact IH].
      exists []. split; [constructor|]. right. eexists. reflexivity.
Qed.

Lemma main_startup_with_off (r : string -> bool) (debug_args : bool)
    (found : option DotEnvFile) (env : gmap string string) :
  main_startup_with false r debug_args found env = main_startup debug_args found env.
Proof.
  unfold main_startup_with, main_startup.
  destruct (dotenv found env) as [env1 res].
  destruct (env_file_log debug_args res); [reflexivity|].
  destruct (env_var env1 "DISCORD_TOKEN"); [reflexivity|].
  destruct (env_var env1 "DATABASE_URL"); reflexivity.
Qed.

Lemma main_startup_with_proceeded (stats : bool) (r : string -> bool) (debug_args : bool)
    (found : option DotEnvFile) (env : gmap string string) d t db :
  main_startup_with stats r debug_args found env = Proceeded d t db ->
  env_var (dotenv found env).1 "DISCORD_TOKEN" = inr t /\
  env_var (dotenv found env).1 "DATABASE_URL" = inr db /\
  (stats = true -> exists kv, env_var (dotenv found env).1 "KV_URL" = inr kv /\ r kv = true).
Proof.
  unfold main_startup_with.
  destruct (dotenv found env) as [env1 res]; simpl.
  destruct (env_file_log debug_args res); try discriminate;
    destruct (env_var env1 "DISCORD_TOKEN") as [|t'] eqn:Ht; try discriminate;
    destruct (env_var env1 "DATABASE_URL") as [|db'] eqn:Hd; try discriminate;
    destruct stats;
    try (destruct (env_var env1 "KV_URL") as [|kv] eqn:Hk; try discriminate;
         destruct (r kv) eqn:Hr; try discriminate);
    intros H; injection H as <- <- <-; repeat split; auto; intros; try discriminate; eauto.
Qed.

Lemma rust_log_set (debug_assertions : bool) (env : gmap string string) :
  env_var (set_default_rust_log debug_assertions env) "RUST_LOG" =
  inr (match env_var env "RUST_LOG" with inr v => v | inl _ => default_log_filter debug_assertions end).
Proof.
  unfold set_default_rust_log.
  destruct (env_var env "RUST_LOG") as [e|v] eqn:E; [|exact E].
  unfold env_var at 1. rewrite lookup_insert_eq. destruct debug_assertions; reflexivity.
Qed.

(** Entries that set no NUL value load one after the other. *)
Lemma load_lines_app (kvs : list (string * string)) (l : list (option (string * string)))
    (env : gmap string string) :
  Forall (fun kv => contains_nul kv.2 = false) kvs ->
  load_lines (map Some kvs ++ l) env = load_lines l (load_lines (map Some kvs) env).1 /\
  (load_lines (map Some kvs) env).2 = Loaded.
Proof.
  revert env; induction kvs as [|[k v] kvs IH]; intros env Hn; simpl; [auto|].
  apply Forall_cons in Hn as [Hv Hn]. simpl in Hv.
  destruct (env_var env k); [rewrite Hv|]; apply IH; exact Hn.
Qed.

Lemma load_lines_panic (lines : list (option (string * string))) (env : gmap string string) :
  (load_lines lines env).2 = SetVarPanic ->
  exists pre k v post, lines = map Some pre ++ Some (k, v) :: post /\ contains_nul v = true.
Proof.
  revert env; induction lines as [|[[k v]|] rest IH]; intros env; simpl; try discriminate.
  destruct (env_var env k).
  - destruct (contains_nul v) eqn:Hv.
    + intros _. exists [], k, v, rest. split; [reflexivity|exact Hv].
    + intros H. destruct (IH _ H) as (pre & k' & v' & post & -> & Hn).
      exists ((k, v) :: pre), k', v', post. split; [reflexivity|exact Hn].
  - intros H. destruct (IH _ H) as (pre & k' & v' & post & -> & Hn).
    exists ((k, v) :: pre), k', v', post. split; [reflexivity|exact Hn].
Qed.

Lemma env_file_log_inr (debug_args : bool) (r : DotEnvResult) (log : list Action) :
  env_file_log debug_args r = inr log ->
  log = [LogWarnNoEnvFile] \/ exists p, log = [LogDebugEnvFile p].
Proof.
  unfold env_file_log. destruct r as [p| |]; try discriminate.
  - destruct (debug_args && negb (utf8_valid (bytes p))); [discriminate|].
    intros H; injection H as <-; eauto.
  - intros H; injection H as <-; auto.
Qed.

Lemma count_effects_app (p : Effect -> bool) (l1 l2 : list Effect) :
  count_effects p (l1 ++ l2) = count_effects p l1 + count_effects p l2.
Proof.
  unfold count_effects. induction l1 as [|e l1 IH]; simpl; auto.
  destruct (p e); simpl; lia.
Qed.

End MainFacts.

(* ------------------------------------------------------------------ *)
(** ** Session claims *)

Import Session SessionFacts.

(** C1: whatever sequence of control calls, events and [terminate()]
    calls a Session receives, the states it enters replay the documented
    state machine from its initial state to its final state; [Terminated]
    has no documented successor, so a Session that is [Terminated] stays
    [Terminated] and enters no other state. *)
Theorem session_run_follows_documented_machine (b : nat) (s : Session) (is : list Input) :
  replay (state s) (run b s is).1 (state (run b s is).2) /\
  (forall st', ~ documented Terminated st') /\
  (state s = Terminated ->
     state (run b s is).2 = Terminated /\ Forall (eq Terminated) (run b s is).1).
Proof.
  split; [apply run_replay|].
  split.
  - intros st' H; inversion H; congruence.
  - intros Hs. apply replay_from_terminated. rewrite <- Hs. apply run_replay.
Qed.

Lemma session_run_follows_documented_machine_witness :
  replay Connecting
    (run 3 (new_session 3 7)
       [Notify JoinSucceeded; Control Pause; Notify ConnectionLost; TerminateCall; Control Play]).1
    Terminated /\
  (run 3 (new_session 3 7)
       [Notify JoinSucceeded; Control Pause; Notify ConnectionLost; TerminateCall; Control Play]).1
    = [Playing; Paused; Reconnecting; Terminating; Terminated].
Proof.
  split; [|reflexivity].
  apply (session_run_follows_documented_machine 3 (new_session 3 7)
           [Notify JoinSucceeded; Control Pause; Notify ConnectionLost; TerminateCall; Control Play]).
Defined.

(** C5: on a Session reached from [new_session], [terminate()] succeeds
    and leaves it [Terminated] with its transport left, its backend closed
    and its relay stopped; a second [terminate()] also succeeds, finds it
    [Terminated] at once (it enters no state) and changes nothing. *)
Theorem terminate_idempotent (b : nat) (s : Session) (Hok : session_ok b s) :
  outcome (terminate b s) = Accepted /\
  state (next (terminate b s)) = Terminated /\
  transport_joined (next (terminate b s)) = false /\
  backend_open (next (terminate b s)) = false /\
  relay_running (next (terminate b s)) = false /\
  outcome (terminate b (next (terminate b s))) = Accepted /\
  trace (terminate b (next (terminate b s))) = [] /\
  next (terminate b (next (terminate b s))) = next (terminate b s).
Proof.
  destruct Hok as (H1 & _ & _).
  assert (Ht := terminate_state b s).
  unfold terminate in *.
  destruct (state s) eqn:Hs; simpl in *; rewrite ?Hs in *;
    try (destruct (H1 eq_refl) as (? & ? & ?));
    repeat split; auto; unfold step; rewrite ?Ht, ?Hs; reflexivity.
Qed.

Lemma terminate_idempotent_witness :
  session_ok 3 (next (step 3 (new_session 3 7) (Notify JoinSucceeded))) /\
  next (terminate 3 (next (terminate 3 (next (step 3 (new_session 3 7) (Notify JoinSucceeded))))))
    = next (terminate 3 (next (step 3 (new_session 3 7) (Notify JoinSucceeded)))).
Proof.
  assert (Hok : session_ok 3 (next (step 3 (new_session 3 7) (Notify JoinSucceeded)))).
  { unfold session_ok; simpl; repeat split; intros; try discriminate; reflexivity. }
  split; [exact Hok|].
  apply (terminate_idempotent 3 _ Hok).
Defined.

(** C7: a control call that has no transition in the Session's current
    state (for example [Skip] while [Connecting]) is answered
    [CommandRejected], and a rejected control call leaves the Session
    unchanged and makes it enter no state. *)
Theorem control_rejected_no_change (b : nat) (s : Session) (c : Command) :
  (state s = Connecting -> outcome (step b s (Control Skip)) = CommandRejected) /\
  (outcome (step b s (Control c)) = CommandRejected ->
     next (step b s (Control c)) = s /\ trace (step b s (Control c)) = []).
Proof.
  split.
  - intros Hs; simpl; rewrite Hs; reflexivity.
  - apply step_rejected.
Qed.

Lemma control_rejected_no_change_witness :
  outcome (step 3 (new_session 3 7) (Control Skip)) = CommandRejected /\
  next (step 3 (new_session 3 7) (Control Skip)) = new_session 3 7.
Proof.
  destruct (control_rejected_no_change 3 (new_session 3 7) Skip) as [H1 H2].
  assert (H : outcome (step 3 (new_session 3 7) (Control Skip)) = CommandRejected)
    by (apply H1; reflexivity).
  split; [exact H | apply (H2 H)].
Defined.

(** C8: a [ConnectionLost] or a transport disconnect in [Playing] or
    [Paused] moves the Session to [Reconnecting]. With a retry budget of
    [b], a run of [1 .. b+1] such failures followed by a successful re-join
    goes [Reconnecting ... Reconnecting, Playing] and never terminates;
    [b+2] failures exhaust the retries: the Session goes [Terminating] then
    [Terminated], with the reported reason [ConnectionLost]. *)
Theorem reconnect_budget (b : nat) (s : Session) (ls : list Event)
    (Hok : session_ok b s) (Hst : state s = Playing \/ state s = Paused)
    (Hls : Forall is_loss ls) :
  (forall e, is_loss e -> state (next (step b s (Notify e))) = Reconnecting) /\
  (1 <= length ls <= S b ->
     (run b s (map Notify ls ++ [Notify RejoinSucceeded])).1
       = repeat Reconnecting (length ls) ++ [Playing] /\
     state (run b s (map Notify ls ++ [Notify RejoinSucceeded])).2 = Playing) /\
  (length ls = S (S b) ->
     (run b s (map Notify ls)).1 = repeat Reconnecting (S b) ++ [Terminating; Terminated] /\
     state (run b s (map Notify ls)).2 = Terminated /\
     end_reason (run b s (map Notify ls)).2 = Some ReasonConnectionLost).
Proof.
  destruct Hok as (_ & H2 & H3).
  assert (Hret : retries_left s = b) by (apply H3; tauto).
  assert (Hnone : end_reason s = None) by (apply H2; tauto).
  split; [intros e He; rewrite (loss_from_running b s e Hst He); reflexivity|].
  destruct ls as [|e rest]; [split; intros; simpl in *; lia|].
  apply Forall_cons in Hls as [He Hrest].
  pose (s1 := with_state Reconnecting s).
  assert (Hs1 : state s1 = Reconnecting) by reflexivity.
  assert (Hr1 : retries_left s1 = b) by exact Hret.
  assert (He1 : end_reason s1 = None) by exact Hnone.
  assert (Hfirst : forall rest',
    run b s (Notify e :: rest') =
      (Reconnecting :: (run b s1 rest').1, (run b s1 rest').2)).
  { intros rest'. rewrite run_cons, (loss_from_running b s e Hst He). reflexivity. }
  split.
  - intros Hlen. cbn [map app]. rewrite Hfirst. cbn [fst snd].
    destruct (losses_while_reconnecting b rest s1) as (s' & Hrun & Hs' & Hr' & Her');
      [exact Hs1 | exact Hrest | simpl in Hlen; lia |].
    rewrite run_app, Hrun; cbn [fst snd].
    rewrite run_cons; simpl. rewrite Hs'. simpl. split; reflexivity.
  - intros Hlen. simpl in Hlen.
    assert (Hsplit : exists last l, rest = l ++ [last]).
    { destruct rest as [|x l] using rev_ind; [simpl in Hlen; lia|]. eauto. }
    destruct Hsplit as (last & l & ->).
    apply Forall_app in Hrest as [Hl Hlast]. rewrite Forall_singleton in Hlast.
    rewrite length_app in Hlen; simpl in Hlen.
    destruct (losses_while_reconnecting b l s1) as (s' & Hrun & Hs' & Hr' & Her');
      [exact Hs1 | exact Hl | lia |].
    cbn [map]. rewrite Hfirst. cbn [fst snd].
    rewrite map_app, run_app, Hrun; cbn [fst snd].
    assert (Hz : retries_left s' = 0) by lia.
    assert (Hstep : step b s' (Notify last) = shut_down ReasonConnectionLost s').
    { destruct Hlast as [-> | ->]; simpl; unfold connection_failure; rewrite Hs', Hz; reflexivity. }
    cbn [map]. rewrite run_cons, Hstep; simpl.
    rewrite Her', He1.
    replace (length l) with b by lia.
    repeat split; reflexivity.
Qed.

Lemma reconnect_budget_witness :
  (run 3 (next (step 3 (new_session 3 7) (Notify JoinSucceeded)))
     [Notify ConnectionLost; Notify ConnectionLost; Notify ConnectionLost;
      Notify RejoinSucceeded]).1
    = [Reconnecting; Reconnecting; Reconnecting; Playing].
Proof.
  destruct (reconnect_budget 3 (next (step 3 (new_session 3 7) (Notify JoinSucceeded)))
              [ConnectionLost; ConnectionLost; ConnectionLost]) as (_ & H & _).
  - unfold session_ok; simpl; repeat split; intros; try discriminate; reflexivity.
  - simpl; auto.
  - repeat constructor; left; reflexivity.
  - apply H; simpl; lia.
Defined.

(* ------------------------------------------------------------------ *)
(** ** Session Manager claims *)

Import Manager ManagerFacts.

(** C2: in every registry state reached by any sequence of manager
    operations, at most one live (non-[Terminated]) Session exists per
    guild; [get_or_create] twice for a guild yields the same instance; and
    creating a Session for a guild terminates the Session registered for it
    first. *)
Theorem one_session_per_guild (b : nat) (ops : list MOp) (g : nat) :
  (forall i j si sj,
     sessions (run_ops b empty_manager ops) !! i = Some si ->
     sessions (run_ops b empty_manager ops) !! j = Some sj ->
     guild_id si = guild_id sj -> state si <> Terminated -> state sj <> Terminated ->
     i = j) /\
  (get_or_create b g (get_or_create b g (run_ops b empty_manager ops)).2).1
    = (get_or_create b g (run_ops b empty_manager ops)).1 /\
  (forall i, registry (run_ops b empty_manager ops) !! g = Some i ->
     exists s, sessions (create b g (run_ops b empty_manager ops)).2 !! i = Some s /\
               state s = Terminated).
Proof.
  pose proof (reachable_inv b ops) as Hinv.
  set (m := run_ops b empty_manager ops) in *.
  destruct Hinv as (R1 & R2 & R3).
  split; [|split].
  - intros i j si sj Hi Hj Hgd Hli Hlj.
    pose proof (R2 _ _ Hi Hli) as Ei. pose proof (R2 _ _ Hj Hlj) as Ej.
    rewrite Hgd, Ej in Ei. congruence.
  - unfold get_or_create.
    destruct (registry m !! g) as [i|] eqn:Hg; [simpl; rewrite Hg; reflexivity|].
    simpl. rewrite lookup_insert_eq. reflexivity.
  - intros i Hg.
    destruct (R1 _ _ Hg) as (s0 & Hs0 & _).
    pose proof (R3 _ _ Hs0) as Hlt.
    exists (next (terminate b s0)). unfold create; simpl.
    rewrite lookup_insert_ne by lia.
    split; [apply retire_registered; assumption | apply terminate_state].
Qed.

Lemma one_session_per_guild_witness :
  (get_or_create 3 5 (get_or_create 3 5
     (run_ops 3 empty_manager [GetOrCreate 5; Dispatch 5 (Notify JoinSucceeded); Create 5])).2).1
  = (get_or_create 3 5
       (run_ops 3 empty_manager [GetOrCreate 5; Dispatch 5 (Notify JoinSucceeded); Create 5])).1.
Proof.
  destruct (one_session_per_guild 3
              [GetOrCreate 5; Dispatch 5 (Notify JoinSucceeded); Create 5] 5) as (_ & H & _).
  exact H.
Defined.

(** C6, as stated: [active_session_count] is 0 at every point after
    [shutdown_all] returns. Refuted: nothing stops [get_or_create] after
    [shutdown_all]; a Session created then and joined is counted. *)
Lemma active_count_after_shutdown_counterexample :
  active_session_count
    (run_ops 3 empty_manager [ShutdownAll; GetOrCreate 5; Dispatch 5 (Notify JoinSucceeded)]) = 1.
Proof. vm_compute. reflexivity. Qed.

(** C6, amended: when [shutdown_all] returns, every Session that was
    registered is [Terminated] (indeed every Session of the store is), and
    [active_session_count] is 0; it stays 0 as long as no Session is created
    afterwards. *)
Theorem shutdown_all_terminates_all (b : nat) (ops rest : list MOp)
    (Hrest : Forall (fun op => creates op = false) rest) :
  (forall g i, registry (run_ops b empty_manager ops) !! g = Some i ->
     exists t, sessions (shutdown_all b (run_ops b empty_manager ops)) !! i = Some t /\
               state t = Terminated) /\
  (forall i t, sessions (shutdown_all b (run_ops b empty_manager ops)) !! i = Some t ->
     state t = Terminated) /\
  active_session_count (shutdown_all b (run_ops b empty_manager ops)) = 0 /\
  active_session_count (run_ops b (shutdown_all b (run_ops b empty_manager ops)) rest) = 0.
Proof.
  pose proof (reachable_inv b ops) as Hinv.
  set (m := run_ops b empty_manager ops) in *.
  assert (Hempty : forall m' op, registry m' = ∅ -> creates op = false ->
            registry (apply_op b m' op) = ∅).
  { intros m' op Hr Hc. destruct op; simpl in Hc; try discriminate; simpl.
    - unfold dispatch. rewrite Hr, lookup_empty. exact Hr.
    - reflexivity. }
  assert (Hcount : forall m', registry m' = ∅ -> active_session_count m' = 0).
  { intros m' Hr. unfold active_session_count. rewrite Hr, map_to_list_empty. reflexivity. }
  split; [|split; [|split]].
  - intros g i Hg.
    pose proof Hinv as (R1 & _ & _).
    destruct (R1 _ _ Hg) as (s0 & Hs0 & _).
    assert (His : is_Some (sessions (shutdown_all b m) !! i)).
    { unfold shutdown_all; simpl. apply fold_terminate_is_Some. rewrite Hs0. eauto. }
    destruct His as [t Ht]. exists t. split; [exact Ht|].
    eapply shutdown_all_terminated; eauto.
  - intros i t Ht. eapply shutdown_all_terminated; eauto.
  - apply Hcount. reflexivity.
  - apply Hcount. unfold run_ops.
    assert (Hr0 : registry (shutdown_all b m) = ∅) by reflexivity.
    revert Hr0. generalize (shutdown_all b m) as m0.
    induction rest as [|op rest IH]; intros m0 Hr0; simpl; [exact Hr0|].
    apply Forall_cons in Hrest as [Hc Hrest].
    apply IH; [exact Hrest|]. apply Hempty; assumption.
Qed.

Lemma shutdown_all_terminates_all_witness :
  active_session_count
    (run_ops 3 (shutdown_all 3 (run_ops 3 empty_manager
       [GetOrCreate 5; Dispatch 5 (Notify JoinSucceeded); GetOrCreate 6]))
       [Dispatch 6 (Notify JoinSucceeded)]) = 0.
Proof.
  destruct (shutdown_all_terminates_all 3
              [GetOrCreate 5; Dispatch 5 (Notify JoinSucceeded); GetOrCreate 6]
              [Dispatch 6 (Notify JoinSucceeded)]) as (_ & _ & _ & H).
  - repeat constructor.
  - exact H.
Defined.

(* ------------------------------------------------------------------ *)
(** ** Audio Relay claims *)

Import Relay RelayFacts.

(** C3: whatever the backend's timing and whatever the transport answers,
    the real frames the transport receives from a backend producing frames
    1..N are a sublist of 1..N: in source order, strictly increasing, never
    duplicated. The relay produces exactly one frame per tick, silence when
    no audio is there in time; with a transport that accepts every frame,
    it receives exactly the produced frames, one per tick, in order. *)
Theorem relay_frame_order (n : nat) (ps : list Poll) (sink : nat -> SendResult) :
  reals (delivered (run sink ps (relay_init n))) `sublist_of` seq 1 n /\
  StronglySorted lt (reals (delivered (run sink ps (relay_init n)))) /\
  NoDup (reals (delivered (run sink ps (relay_init n)))) /\
  length (produced ps (seq 1 n)) = length ps /\
  ((forall k, sink k = SendOk) ->
     delivered (run sink ps (relay_init n)) = produced ps (seq 1 n)).
Proof.
  assert (Hsub : reals (delivered (run sink ps (relay_init n))) `sublist_of` seq 1 n).
  { pose proof (run_order n sink ps (relay_init n)) as H.
    unfold order_inv in H. etransitivity; [|apply H; simpl; reflexivity].
    apply sublist_inserts_r. reflexivity. }
  split; [exact Hsub|].
  split; [eapply sublist_strongly_sorted; [apply seq_strongly_sorted | exact Hsub]|].
  split; [eapply sublist_NoDup; [apply NoDup_seq | exact Hsub]|].
  split; [apply produced_length|].
  intros Hok. rewrite (run_all_ok sink Hok); reflexivity.
Qed.

Lemma relay_frame_order_witness :
  delivered (run (fun _ => SendOk) [Ready; Late; Undecodable; Ready; Ready] (relay_init 3))
  = [Pcm 1; Silence; Silence; Pcm 3; Silence].
Proof.
  destruct (relay_frame_order 3 [Ready; Late; Undecodable; Ready; Ready] (fun _ => SendOk))
    as (_ & _ & _ & _ & H).
  rewrite H by reflexivity. reflexivity.
Defined.

(** C4: with a transport that answers [WouldBlock] to every [send_frame],
    in every state the relay goes through (also in the middle of a tick)
    its buffer holds at most one frame; nothing is delivered and every frame
    produced is dropped. On each [WouldBlock] the relay drops the oldest
    buffered frame. *)
Theorem saturated_backlog_bounded (n : nat) (ps : list Poll) :
  Forall (fun st => length (buffer st) <= 1) (states (fun _ => WouldBlock) ps (relay_init n)) /\
  delivered (run (fun _ => WouldBlock) ps (relay_init n)) = [] /\
  dropped (run (fun _ => WouldBlock) ps (relay_init n)) = produced ps (seq 1 n) /\
  (forall p st, closed st = false ->
     buffer (tick (fun _ => WouldBlock) p st) = tail (buffer (enqueue p st)) /\
     dropped (tick (fun _ => WouldBlock) p st) = dropped st ++ take 1 (buffer (enqueue p st))).
Proof.
  destruct (blocked_run ps (relay_init n)) as (H1 & H2 & H3); [reflexivity | reflexivity |].
  split; [exact H1|]. split; [exact H2|]. split; [exact H3|].
  intros p st Hc. unfold tick; rewrite Hc.
  unfold send_buffered.
  destruct (buffer (enqueue p st)) as [|f rest] eqn:Hb.
  - exfalso. unfold enqueue in Hb. destruct (pull p (pending st)); simpl in Hb.
    destruct (buffer st); discriminate.
  - simpl. split; [reflexivity|].
    assert (Hd : dropped (enqueue p st) = dropped st)
      by (unfold enqueue; destruct (pull p (pending st)); reflexivity).
    rewrite Hd. reflexivity.
Qed.

Lemma saturated_backlog_bounded_witness :
  buffer (tick (fun _ => WouldBlock) Ready (mkRelay [4; 5] [Pcm 2; Pcm 3] [] [] 0 false))
  = [Pcm 3; Pcm 4].
Proof.
  destruct (saturated_backlog_bounded 5 []) as (_ & _ & _ & H).
  destruct (H Ready (mkRelay [4; 5] [Pcm 2; Pcm 3] [] [] 0 false)) as [Hb _]; [reflexivity|].
  rewrite Hb. reflexivity.
Defined.

(* ------------------------------------------------------------------ *)
(** ** Bootstrap claims ([src/main.rs]) *)

Import Main MainFacts.

(** C9, as stated: a variable absent from the environment at startup makes
    the process panic. Refuted: [dotenv()] loads [.env] into the
    environment first, so a variable absent at startup but given by [.env]
    is found, and startup proceeds, whatever the log level. *)
Lemma startup_env_check_counterexample :
  env_var ∅ "DISCORD_TOKEN" = inl NotPresent /\
  forall debug_args,
  main_startup debug_args
    (Some (mkDotEnvFile "/srv/spoticord/.env"
       [Some ("DISCORD_TOKEN", "abc"); Some ("DATABASE_URL", "postgres://db")]))
    ∅
  = Proceeded [LogDebugEnvFile "/srv/spoticord/.env"; CreateSessionManager]
      "abc" "postgres://db".
Proof. split; [vm_compute; reflexivity|]. intros []; vm_compute; reflexivity. Qed.

(** C9, amended: let [env1] be the environment once [.env] (if found) is
    loaded; [.env] never replaces a variable already set to a valid value,
    and [dotenv()] panics (inside [set_var]) only on a NUL byte in a value
    of the file. If [DISCORD_TOKEN] or [DATABASE_URL] is missing from
    [env1] (or not valid Unicode) the process panics before the session
    manager or the gateway client is created. If both are there and
    [dotenv()] did not panic, startup proceeds past these checks with their
    values, whether or not a [.env] file was loaded (without one only a
    warning is logged), provided, when [debug!] evaluates its arguments,
    the path of a loaded [.env] is valid UTF-8. *)
Theorem startup_env_check (debug_args : bool) (found : option DotEnvFile)
    (env : gmap string string) :
  (forall k v, env_var env k = inr v -> env_var (dotenv found env).1 k = inr v) /\
  ((dotenv found env).2 = DotEnvPanic ->
     main_startup debug_args found env = Panicked dotenv_set_var_panic [] /\
     exists f pre k v post, found = Some f /\
       env_lines f = map Some pre ++ Some (k, v) :: post /\ contains_nul v = true) /\
  (((exists e, env_var (dotenv found env).1 "DISCORD_TOKEN" = inl e) \/
    (exists e, env_var (dotenv found env).1 "DATABASE_URL" = inl e)) ->
     exists msg done, (main_startup debug_args found env = Panicked msg done /\
       (CreateSessionManager ∉ done) /\ (forall t, BuildClient t ∉ done))) /\
  (forall token db,
     env_var (dotenv found env).1 "DISCORD_TOKEN" = inr token ->
     env_var (dotenv found env).1 "DATABASE_URL" = inr db ->
     (dotenv found env).2 <> DotEnvPanic ->
     (forall path, (dotenv found env).2 = DotEnvOk path -> debug_args = true ->
        utf8_valid (bytes path) = true) ->
     main_startup debug_args found env =
       Proceeded ((match (dotenv found env).2 with
                   | DotEnvOk path => [LogDebugEnvFile path]
                   | _ => [LogWarnNoEnvFile]
                   end) ++ [CreateSessionManager]) token db).
Proof.
  split; [intros k v; apply dotenv_keeps|].
  split.
  { intros Hp. split.
    - unfold main_startup. destruct (dotenv found env) as [env1 res].
      simpl in Hp. subst res. reflexivity.
    - destruct found as [f|]; [|discriminate].
      unfold dotenv in Hp.
      destruct (load_lines (env_lines f) env) as [env1 e] eqn:E.
      destruct e; try discriminate.
      destruct (load_lines_panic (env_lines f) env) as (pre & k & v & post & Hl & Hn);
        [rewrite E; reflexivity|].
      exists f, pre, k, v, post. auto. }
  unfold main_startup.
  destruct (dotenv found env) as [env1 res]; cbn [fst snd].
  assert (Hlogs : forall l,
            (l = [] \/ l = [LogWarnNoEnvFile] \/ (exists p, l = [LogDebugEnvFile p])) ->
            (CreateSessionManager ∉ l) /\ (forall t, BuildClient t ∉ l)).
  { intros l [-> | [-> | [p ->]]]; (split; [intros Hin | intros t Hin]);
      repeat (apply elem_of_cons in Hin as [Hin|Hin]; try discriminate);
      apply elem_of_nil in Hin; exact Hin. }
  split.
  - intros Hmiss.
    destruct (env_file_log debug_args res) as [msg|log] eqn:Hl.
    + exists msg, []. split; [reflexivity|]. apply Hlogs; auto.
    + assert (Hlog : (CreateSessionManager ∉ log) /\ (forall t, BuildClient t ∉ log))
        by (apply Hlogs; right; apply (env_file_log_inr debug_args res log Hl)).
      destruct (env_var env1 "DISCORD_TOKEN") as [e1|t] eqn:Ht;
        [eexists _, _; split; [reflexivity | exact Hlog]|].
      destruct (env_var env1 "DATABASE_URL") as [e2|d] eqn:Hd;
        [eexists _, _; split; [reflexivity | exact Hlog]|].
      destruct Hmiss as [[e He] | [e He]]; congruence.
  - intros token db Ht Hd Hnp Hpath.
    destruct res as [path| |]; [| | congruence]; unfold env_file_log.
    + destruct debug_args.
      * rewrite (Hpath path eq_refl eq_refl), Ht, Hd. reflexivity.
      * rewrite Ht, Hd. reflexivity.
    + rewrite Ht, Hd. reflexivity.
Qed.

Lemma startup_env_check_witness :
  main_startup true None (<["DISCORD_TOKEN" := "abc"]> (<["DATABASE_URL" := "postgres://db"]> ∅))
  = Proceeded [LogWarnNoEnvFile; CreateSessionManager] "abc" "postgres://db" /\
  main_startup true
    (Some (mkDotEnvFile "/srv/spoticord/.env" [Some ("FOO", String Ascii.zero EmptyString)]))
    (<["DISCORD_TOKEN" := "abc"]> (<["DATABASE_URL" := "postgres://db"]> ∅))
  = Panicked dotenv_set_var_panic [].
Proof.
  split.
  - destruct (startup_env_check true None
                (<["DISCORD_TOKEN" := "abc"]> (<["DATABASE_URL" := "postgres://db"]> ∅)))
      as (_ & _ & _ & H).
    apply H; [vm_compute; reflexivity | vm_compute; reflexivity | discriminate
             | intros path Hp; discriminate].
  - destruct (startup_env_check true
                (Some (mkDotEnvFile "/srv/spoticord/.env" [Some ("FOO", String Ascii.zero EmptyString)]))
                (<["DISCORD_TOKEN" := "abc"]> (<["DATABASE_URL" := "postgres://db"]> ∅)))
      as (_ & H & _).
    apply H. vm_compute. reflexivity.
Defined.

(** C10: the background task performs at most one shutdown. Its effects
    are stats updates, possibly followed, once, by the shutdown branch: the
    session manager's shutdown runs to completion, then the shard manager's
    [shutdown_all], and the loop is left, so nothing more happens: no
    wakeup after the first ctrl-c (or, on Unix, terminate signal) has any
    effect. *)
Theorem coordinator_single_shutdown (stats term_some : bool) (ws : list Wakeup) :
  (exists pre, Forall (fun e => is_stats_effect e = true) pre /\
     (coordinator stats term_some ws = pre \/
      exists msg, coordinator stats term_some ws =
                    pre ++ [LogInfo msg; SessionManagerShutdown; ShardShutdownAll])) /\
  (forall ws1 w rest,
     (w = CtrlC \/ (exists r, w = TermSignal r) /\ term_some = true) ->
     coordinator stats term_some (ws1 ++ w :: rest) = coordinator stats term_some (ws1 ++ [w])).
Proof.
  split; [apply coordinator_shape|].
  intros ws1 w rest Hw.
  induction ws1 as [|w1 ws1 IH]; simpl.
  - destruct Hw as [-> | ((r & ->) & ->)]; reflexivity.
  - destruct w1; rewrite ?IH; reflexivity.
Qed.

Lemma coordinator_single_shutdown_witness :
  coordinator true true [SleepElapsed true false; CtrlC; SleepElapsed true true; TermSignal None]
  = coordinator true true [SleepElapsed true false; CtrlC].
Proof.
  destruct (coordinator_single_shutdown true true []) as (_ & H).
  apply (H [SleepElapsed true false] CtrlC [SleepElapsed true true; TermSignal None]).
  left; reflexivity.
Defined.

(* ------------------------------------------------------------------ *)
(** ** The rest of [main] *)

(** The log filter [env_logger::init()] reads is the process's own
    [RUST_LOG] when that is valid Unicode, otherwise the build's default
    ([spoticord] with debug assertions, [spoticord=info] without); a
    [RUST_LOG] entry in [.env] never takes effect, neither for the logger
    nor in the environment after [dotenv()]. *)
Theorem main_log_filter (debug_assertions stats unix : bool) (x : Externals)
    (found : option DotEnvFile) (env0 : gmap string string) :
  let v := match env_var env0 "RUST_LOG" with
           | inr v => v
           | inl _ => default_log_filter debug_assertions
           end in
  log_filter (main_process debug_assertions stats unix x found env0) = Some v /\
  env_var (dotenv found (set_default_rust_log debug_assertions env0)).1 "RUST_LOG" = inr v.
Proof.
  intros v. pose proof (rust_log_set debug_assertions env0) as H. split.
  - unfold main_process. cbv zeta. rewrite H.
    destruct (main_startup_with _ _ _ _ _); [reflexivity|].
    destruct (client_ok x _), unix, (signal_ok x), (gateway_ok x); reflexivity.
  - apply dotenv_keeps. exact H.
Qed.

(** Once the background task is spawned, the client was built with the
    [DISCORD_TOKEN] of the environment after [.env] was loaded, and the
    client's data holds the [Database] for that environment's
    [DATABASE_URL], the [CommandManager] and the [SessionManager]; with
    the [stats] feature, [KV_URL] was valid and redis connected to it. *)
Theorem main_client_data (debug_assertions stats unix : bool) (x : Externals)
    (found : option DotEnvFile) (env0 : gmap string string) :
  let env1 := (dotenv found (set_default_rust_log debug_assertions env0)).1 in
  let t := main_process debug_assertions stats unix x found env0 in
  coordinator_spawned t = true ->
  exists token db,
    env_var env1 "DISCORD_TOKEN" = inr token /\ client_ok x token = true /\
    env_var env1 "DATABASE_URL" = inr db /\
    client_data t = [DataDatabase db; DataCommandManager; DataSessionManager] /\
    (stats = true -> exists kv, env_var env1 "KV_URL" = inr kv /\ redis_ok x kv = true).
Proof.
  intros env1 t. subst env1 t. unfold main_process. cbv zeta.
  destruct (main_startup_with stats (redis_ok x) _ found _) as [msg d|d token db] eqn:E;
    [simpl; discriminate|].
  apply main_startup_with_proceeded in E as (Ht & Hd & Hk).
  destruct (client_ok x token) eqn:Hc; [|simpl; discriminate].
  destruct unix, (signal_ok x); simpl; try discriminate;
    intros _; exists token, db; repeat split; auto.
Qed.

Lemma main_client_data_witness :
  coordinator_spawned
    (main_process false true true
       (mkExternals (fun _ => true) (fun _ => true) (fun _ => true) true false) None
       (<["DISCORD_TOKEN" := "t"]> (<["DATABASE_URL" := "db"]> (<["KV_URL" := "kv"]> ∅))))
    = true /\
  exists token db,
    env_var (dotenv None (set_default_rust_log false
       (<["DISCORD_TOKEN" := "t"]> (<["DATABASE_URL" := "db"]> (<["KV_URL" := "kv"]> ∅))))).1
       "DISCORD_TOKEN" = inr token /\ (fun _ => true) token = true /\
    env_var (dotenv None (set_default_rust_log false
       (<["DISCORD_TOKEN" := "t"]> (<["DATABASE_URL" := "db"]> (<["KV_URL" := "kv"]> ∅))))).1
       "DATABASE_URL" = inr db /\
    client_data
      (main_process false true true
         (mkExternals (fun _ => true) (fun _ => true) (fun _ => true) true false) None
         (<["DISCORD_TOKEN" := "t"]> (<["DATABASE_URL" := "db"]> (<["KV_URL" := "kv"]> ∅))))
      = [DataDatabase db; DataCommandManager; DataSessionManager] /\
    (true = true -> exists kv,
       env_var (dotenv None (set_default_rust_log false
         (<["DISCORD_TOKEN" := "t"]> (<["DATABASE_URL" := "db"]> (<["KV_URL" := "kv"]> ∅))))).1
         "KV_URL" = inr kv /\ (fun _ => true) kv = true).
Proof.
  split; [vm_compute; reflexivity|].
  apply (main_client_data false true true
           (mkExternals (fun _ => true) (fun _ => true) (fun _ => true) true false)
           None (<["DISCORD_TOKEN" := "t"]> (<["DATABASE_URL" := "db"]> (<["KV_URL" := "kv"]> ∅)))).
  vm_compute. reflexivity.
Defined.



(** A [.env] file with a line that does not parse, the entries before it
    setting no NUL value: those entries are loaded, none after that line,
    and [main] reaches the warning that no [.env] file was found, although
    one was. *)
Theorem main_env_parse_error_warns (debug_args : bool) (f : DotEnvFile)
    (pre : list (string * string)) (post : list (option (string * string)))
    (env : gmap string string) :
  env_lines f = map Some pre ++ None :: post ->
  Forall (fun kv => contains_nul kv.2 = false) pre ->
  dotenv (Some f) env = ((load_lines (map Some pre) env).1, DotEnvErr) /\
  match main_startup debug_args (Some f) env with
  | Panicked _ d => d = [LogWarnNoEnvFile]
  | Proceeded d _ _ => d = [LogWarnNoEnvFile; CreateSessionManager]
  end.
Proof.
  intros Hl Hn.
  assert (Hd : dotenv (Some f) env = ((load_lines (map Some pre) env).1, DotEnvErr)).
  { unfold dotenv. rewrite Hl, (proj1 (load_lines_app pre _ env Hn)). reflexivity. }
  split; [exact Hd|].
  unfold main_startup. rewrite Hd. simpl.
  destruct (env_var _ "DISCORD_TOKEN"); [reflexivity|].
  destruct (env_var _ "DATABASE_URL"); reflexivity.
Qed.

Lemma main_env_parse_error_warns_witness :
  main_startup true (Some (mkDotEnvFile "/app/.env"
                  [Some ("DISCORD_TOKEN", "t"); None; Some ("DATABASE_URL", "db")])) ∅
    = Panicked "a database URL in the environment" [LogWarnNoEnvFile] /\
  match main_startup true (Some (mkDotEnvFile "/app/.env"
                  [Some ("DISCORD_TOKEN", "t"); None; Some ("DATABASE_URL", "db")])) ∅ with
  | Panicked _ d => d = [LogWarnNoEnvFile]
  | Proceeded d _ _ => d = [LogWarnNoEnvFile; CreateSessionManager]
  end.
Proof.
  split; [vm_compute; reflexivity|].
  apply (main_env_parse_error_warns true
    (mkDotEnvFile "/app/.env" [Some ("DISCORD_TOKEN", "t"); None; Some ("DATABASE_URL", "db")])
    [("DISCORD_TOKEN", "t")] [Some ("DATABASE_URL", "db")] ∅);
    [reflexivity | repeat constructor].
Defined.



(** A [.env] value holding a NUL byte, for a key not validly set when its
    line is reached, after lines that parse and set no NUL value, makes
    [main] panic inside [dotenv()]: nothing is logged about [.env], no
    variable is read, nothing is started. *)
Theorem main_env_nul_value_panics (debug_assertions stats unix : bool) (x : Externals)
    (f : DotEnvFile) (pre : list (string * string)) (k v : string)
    (post : list (option (string * string))) (env0 : gmap string string) (e : VarError) :
  let env := set_default_rust_log debug_assertions env0 in
  env_lines f = map Some pre ++ Some (k, v) :: post ->
  Forall (fun kv => contains_nul kv.2 = false) pre ->
  env_var (load_lines (map Some pre) env).1 k = inl e ->
  contains_nul v = true ->
  ended (main_process debug_assertions stats unix x (Some f) env0) = EndPanic dotenv_set_var_panic /\
  coordinator_spawned (main_process debug_assertions stats unix x (Some f) env0) = false.
Proof.
  intros env Hl Hn Hk Hv. subst env.
  unfold main_process, main_startup_with, dotenv. cbv zeta. rewrite Hl.
  rewrite (proj1 (load_lines_app pre _ _ Hn)). simpl.
  rewrite Hk, Hv. split; reflexivity.
Qed.

Lemma main_env_nul_value_panics_witness :
  ended (main_process false false true
           (mkExternals (fun _ => false) (fun _ => true) (fun _ => true) true true)
           (Some (mkDotEnvFile "/app/.env" [Some ("FOO", String Ascii.zero EmptyString)]))
           (<["DISCORD_TOKEN" := "t"]> (<["DATABASE_URL" := "db"]> ∅)))
  = EndPanic dotenv_set_var_panic.
Proof.
  apply (main_env_nul_value_panics false false true
           (mkExternals (fun _ => false) (fun _ => true) (fun _ => true) true true)
           (mkDotEnvFile "/app/.env" [Some ("FOO", String Ascii.zero EmptyString)])
           [] "FOO" (String Ascii.zero EmptyString) []
           (<["DISCORD_TOKEN" := "t"]> (<["DATABASE_URL" := "db"]> ∅)) NotPresent);
    [reflexivity | constructor | vm_compute; reflexivity | reflexivity].
Defined.

(** With the [stats] feature, every sleep wakeup before the loop is left
    updates the server count once and the active count once, and logs one
    error per failed update. *)
Theorem coordinator_stats_counts (term_some : bool) (ws : list Wakeup) :
  let sb := sleeps_before term_some ws in
  count_effects is_set_server_count (coordinator true term_some ws) = length sb /\
  count_effects is_set_active_count (coordinator true term_some ws) = length sb /\
  count_effects is_log_error (coordinator true term_some ws) =
    length (List.filter (fun ac => negb ac.1) sb) + length (List.filter (fun ac => negb ac.2) sb).
Proof.
  induction ws as [|w ws IH]; cbn [coordinator sleeps_before]; [repeat split|].
  destruct w as [a c| |r].
  - rewrite !count_effects_app. destruct IH as (H1 & H2 & H3).
    rewrite H1, H2, H3. destruct a, c; simpl; repeat split; lia.
  - repeat split.
  - destruct term_some; [repeat split|exact IH].
Qed.

(** With the [stats] feature off, the background task does nothing but
    possibly its one shutdown. *)
Theorem coordinator_stats_off_quiet (term_some : bool) (ws : list Wakeup) :
  coordinator false term_some ws = [] \/
  exists msg, coordinator false term_some ws = shutdown_branch msg.
Proof.
  induction ws as [|w ws IH]; simpl; [left; reflexivity|].
  destruct w as [a c| |r]; simpl; [exact IH|right; eauto|].
  destruct term_some; [right; eauto|exact IH].
Qed.

(** The background task shuts the session manager and the shards down
    if and only if a ctrl-c wakeup occurs, or, on Unix, a terminate
    wakeup, a closed signal stream ([recv()] yielding [None]) included. *)
Theorem coordinator_shutdown_iff_trigger (stats term_some : bool) (ws : list Wakeup) :
  existsb is_shutdown (coordinator stats term_some ws) =
  existsb (is_shutdown_trigger term_some) ws.
Proof.
  induction ws as [|w ws IH]; simpl; [reflexivity|].
  destruct w as [a c| |r]; simpl.
  - rewrite existsb_app, IH.
    replace (existsb is_shutdown (stats_update stats a c)) with false
      by (unfold stats_update; destruct stats, a, c; reflexivity).
    reflexivity.
  - reflexivity.
  - destruct term_some; [reflexivity|exact IH].
Qed.

